(** * whatsabi: the [autoload] resolution pipeline (src.ts/auto.ts)

    A shallow embedding of [isAddress], [stripUnreliableABI] and [autoload].

    ABI entries are JavaScript objects that the code reads by key, rebuilds
    with object literals and updates with [Object.assign], so an entry is a
    finite map from property names to JSON-like values.  The asynchronous
    collaborators (provider, ABI loader, signature lookup) are records of
    functions that return a settled promise: fulfilled with a value or
    rejected with an error.  A run of [autoload] yields the sequence of
    calls it made to its collaborators and hooks, together with the way its
    own promise settled. *)

From stdpp Require Import base option list strings gmap fin_maps.

Local Open Scope string_scope.
Set Warnings "-register-all".

(** ** JavaScript values and objects *)

Inductive value : Type :=
| VUndefined
| VNull
| VBool (b : bool)
| VNum (n : Z)
| VStr (s : string)
| VArr (items : list value)
| VObj (props : list (string * value)).

(** An object seen through its own enumerable properties. *)
Abbreviation Obj := (gmap string value).

(** The ABI is an array of entries, kept in discovery order. *)
Abbreviation ABI := (list (gmap string value)).

(** [o.k]: reading a property that is not there gives [undefined]. *)
Definition get (o : Obj) (k : string) : value := default VUndefined (o !! k).

(** [v === "s"] for a string literal. *)
Definition is_str (v : value) (s : string) : bool :=
  match v with
  | VStr t => String.eqb t s
  | _ => false
  end.

(** Property read on a nested (association-list) object: first binding wins
    here, which is all [length_of] below needs. *)
Fixpoint assoc (k : string) (props : list (string * value)) : value :=
  match props with
  | [] => VUndefined
  | (k', v) :: rest => if String.eqb k' k then v else assoc k rest
  end.

(** Errors are thrown values; only their message is kept. *)
Record Error : Type := MkError { message : string }.

(** A computation that either yields a value or throws / rejects. *)
Inductive Result (A : Type) : Type :=
| Ok (a : A)
| Err (e : Error).
Arguments Ok {A} a.
Arguments Err {A} e.

(** [v.length === 0].  Reading [.length] of [undefined] or [null] throws a
    TypeError; arrays and strings have a length; an object has one only as
    an ordinary property; booleans and numbers have none. *)
Definition length_is_zero (v : value) : Result bool :=
  match v with
  | VUndefined | VNull =>
      Err (MkError "TypeError: cannot read properties of undefined (reading 'length')")
  | VArr items => Ok (Nat.eqb (List.length items) 0)
  | VStr s => Ok (Nat.eqb (String.length s) 0)
  | VObj props =>
      Ok (match assoc "length" props with
          | VNum n => Z.eqb n 0
          | _ => false
          end)
  | VBool _ | VNum _ => Ok false
  end.

(** ** isAddress (auto.ts, lines 8-10)

    Only the length and the prefix are tested, not the hex digits.  Lengths
    are counted in characters of the string, which is the JavaScript length
    for the ASCII text addresses are written in. *)

Definition startsWith (s p : string) : bool := String.prefix p s.

Definition isAddress (address : string) : bool :=
  Nat.eqb (String.length address) 42 && startsWith address "0x".

(** The address format as the specification words it, to set beside
    [isAddress]: a 20-byte identifier rendered as a fixed-length hex string,
    that is 0x followed by forty hex digits. *)
Definition hexDigit (c : Ascii.ascii) : bool :=
  let n := Ascii.nat_of_ascii c in
  (Nat.leb 48 n && Nat.leb n 57)          (* 0-9 *)
  || (Nat.leb 65 n && Nat.leb n 70)       (* A-F *)
  || (Nat.leb 97 n && Nat.leb n 102).     (* a-f *)

Definition hexAddressFormat (s : string) : bool :=
  Nat.eqb (String.length s) 42
  && String.prefix "0x" s
  && forallb hexDigit (String.list_ascii_of_string (String.substring 2 40 s)).

(** ** stripUnreliableABI (auto.ts, lines 115-125) *)

Definition strippedEntry (a : Obj) : Obj :=
  <["type" := VStr "function"]> (<["selector" := get a "selector"]> ∅).

Fixpoint stripUnreliableABI (abi : ABI) : ABI :=
  match abi with
  | [] => []
  | a :: rest =>
      if is_str (get a "type") "function"
      then strippedEntry a :: stripUnreliableABI rest
      else stripUnreliableABI rest
  end.

(** ** Collaborators and configuration (auto.ts, lines 12-29)

    Each collaborator method returns a promise; [Ok] is a fulfilled promise
    and [Err] a rejected one. *)

Record Provider : Type := {
  resolveName : string → Result (option string);   (* null when the name is unknown *)
  getCode : string → Result string
}.

Record ABILoader : Type := {
  loadABI : string → Result ABI
}.

Record SignatureLookup : Type := {
  loadFunctions : value → Result (list string);
  loadEvents : value → Result (list string)
}.

(** An optional, disableable capability: [abiLoader?: ABILoader|false]. *)
Inductive Capability (A : Type) : Type :=
| Unset                 (* undefined *)
| Disabled              (* false *)
| Enabled (c : A).
Arguments Unset {A}.
Arguments Disabled {A}.
Arguments Enabled {A} c.

(** JavaScript truthiness, and the strict comparison [v === true]. *)
Definition truthy (v : value) : bool :=
  match v with
  | VUndefined | VNull => false
  | VBool b => b
  | VNum n => negb (Z.eqb n 0)
  | VStr s => negb (String.eqb s "")
  | VArr _ | VObj _ => true
  end.

Definition is_true (v : value) : bool :=
  match v with
  | VBool true => true
  | _ => false
  end.

(** The progress hook only observes the run; its calls are recorded in the
    trace below rather than kept as a field.  The error hook is declared to
    return [boolean|void] (line 25); a function that returns anything at all
    fits the [void] part, and JavaScript callers are not checked, so what the
    hook hands back is an arbitrary value. *)
Record AutoloadConfig : Type := {
  provider : Provider;
  abiLoader : Capability ABILoader;
  signatureLookup : Capability SignatureLookup;
  onError : option (string → Error → value);
  enableExperimentalMetadata : option bool
}.

(** ** Observable calls and runs *)

Inductive Call : Type :=
| Progress (phase : string) (detail : Obj)       (* onProgress(phase, detail) *)
| ResolveName (name : string)                    (* provider.resolveName *)
| LoadABI (address : string)                     (* abiLoader.loadABI *)
| OnError (phase : string) (error : Error)       (* onError(phase, error) *)
| ConsoleError (text : string) (error : Error)   (* console.error in the default hook *)
| GetCode (address : string)                     (* provider.getCode *)
| LoadFunctions (selector : value)               (* signatureLookup.loadFunctions *)
| LoadEvents (hash : value).                     (* signatureLookup.loadEvents *)

(** A run: the calls made, in order, and how the run ended. *)
Definition Run (A : Type) : Type := list Call * Result A.

#[export] Instance run_ret : MRet Run := λ A a, ([], Ok a).

#[export] Instance run_bind : MBind Run := λ A B k m,
  match m with
  | (t, Ok a) => let '(t', r) := k a in ((t ++ t')%list, r)
  | (t, Err e) => (t, Err e)
  end.

Definition emit (c : Call) : Run unit := ([c], Ok tt).

(** [await] of a collaborator call: record the call, continue with its value
    or stop with its rejection. *)
Definition await {A} (c : Call) (p : Result A) : Run A := ([c], p).

(** A run that continues another: the calls [t] came first. *)
Definition after {A} (t : list Call) (r : Run A) : Run A := ((t ++ r.1)%list, r.2).

(** No call of the given kind was made. *)
Definition quiet (kind : Call → bool) (t : list Call) : Prop :=
  Forall (λ c, kind c = false) t.

(** The calls a run made that belong to the bytecode stage, and those that
    query the signature database. *)
Definition bytecodeCall (c : Call) : bool :=
  match c with
  | GetCode _ | LoadFunctions _ | LoadEvents _ => true
  | Progress phase _ => String.eqb phase "getCode" || String.eqb phase "signatureLookup"
  | _ => false
  end.

Definition signatureQuery (c : Call) : bool :=
  match c with
  | LoadFunctions _ | LoadEvents _ => true
  | _ => false
  end.

Definition nameResolution (c : Call) : bool :=
  match c with
  | ResolveName _ => true
  | Progress phase _ => String.eqb phase "resolveName"
  | _ => false
  end.

(** [defaultConfig.onError] (line 14): logs and returns false. *)
Definition defaultConfig_onError (phase : string) (err : Error) : Run value :=
  ([ConsoleError (phase ++ ":") err], Ok (VBool false)).

(** [const onError = config.onError || defaultConfig.onError] (line 35),
    applied to a phase and an error. *)
Definition callOnError (cfg : AutoloadConfig) (phase : string) (err : Error) : Run value :=
  emit (OnError phase err);;
  match onError cfg with
  | Some hook => mret (hook phase err)
  | None => defaultConfig_onError phase err
  end.

(** ** autoload (auto.ts, lines 33-113) *)

Section Autoload.

(** Imported from modules outside this file: the bytecode extractor
    ([./disasm]), the two default capabilities ([./loaders]) and the
    ethers fragment parser, [JSON.parse(Fragment.from(s).format("json"))],
    which throws on text it cannot parse. *)
Variable abiFromBytecode : string → ABI.
Variable defaultABILoader : Capability ABILoader.
Variable defaultSignatureLookup : Capability SignatureLookup.
Variable fragmentJson : string → Result Obj.

(** [if (x === undefined) x = dflt;] followed by the test [if (x)]. *)
Definition configured {A} (x dflt : Capability A) : option A :=
  match (match x with Unset => dflt | _ => x end) with
  | Enabled c => Some c
  | _ => None
  end.

(** Lines 44-47: name resolution. *)
Definition normalize (cfg : AutoloadConfig) (address : string) : Run string :=
  if isAddress address then mret address
  else
    emit (Progress "resolveName" {[ "address" := VStr address ]});;
    r ← await (ResolveName address) (resolveName (provider cfg) address);
    mret (match r with
          | Some resolved => if String.eqb resolved "" then address else resolved
          | None => address
          end).

(** Lines 49-59: the registry stage.  [Some abi] is an early [return abi];
    [None] falls through to the code below it. *)
Definition registry (cfg : AutoloadConfig) (address : string) : Run (option ABI) :=
  match configured (abiLoader cfg) defaultABILoader with
  | None => mret None
  | Some loader =>
      emit (Progress "abiLoader" {[ "address" := VStr address ]});;
      emit (LoadABI address);;
      match loadABI loader address with
      | Ok abi => mret (if Nat.ltb 0 (List.length abi) then Some abi else None)
      | Err error =>
          abort ← callOnError cfg "abiLoad" error;
          mret (if is_true abort then Some [] else None)
      end
  end.

(** Lines 64-68: candidates from the bytecode, filtered unless the
    experimental flag is truthy. *)
Definition candidates (cfg : AutoloadConfig) (code : string) : ABI :=
  let abi := abiFromBytecode code in
  match enableExperimentalMetadata cfg with
  | Some true => abi
  | _ => stripUnreliableABI abi
  end.

(** Line 95 / 105: [if (r.length > 1) a.sigAlts = r.slice(1)]. *)
Definition setSigAlts (r : list string) (a : Obj) : Obj :=
  if Nat.ltb 1 (List.length r) then <["sigAlts" := VArr (VStr <$> drop 1 r)]> a else a.

(** Lines 81-96: the callback run on the signatures found for a function
    entry.  It gives the entry as the callback leaves it and the error it
    threw, if any; the entry is updated in place, so what was written
    before a throw stays written. *)
Definition functionsLoaded (a : Obj) (r : list string) : Obj * option Error :=
  match r with
  | [] => (setSigAlts r a, None)
  | sig :: _ =>
      let a := <["sig" := VStr sig]> a in
      match fragmentJson ("function " ++ sig) with
      | Err thrown => (a, Some thrown)
      | Ok extracted =>
          match length_is_zero (get extracted "outputs") with
          | Err thrown => (a, Some thrown)
          | Ok empty =>
              let extracted := if empty then delete "outputs" extracted else extracted in
              (setSigAlts r (extracted ∪ a), None)
          end
      end
  end.

(** Lines 98-106: the same for an event entry. *)
Definition eventsLoaded (a : Obj) (r : list string) : Obj * option Error :=
  match r with
  | [] => (setSigAlts r a, None)
  | sig :: _ =>
      let a := <["sig" := VStr sig]> a in
      match fragmentJson ("event " ++ sig) with
      | Err thrown => (a, Some thrown)
      | Ok extracted => (setSigAlts r (extracted ∪ a), None)
      end
  end.

(** One iteration of the loop at lines 79-108: the query issued for the
    entry (none for an entry that is neither a function nor an event), the
    entry once its promise has settled, and the rejection of that promise.
    Each callback writes to the one entry it closed over; the entries of the
    array are taken to be distinct objects, as [stripUnreliableABI] builds
    them. *)
Record Task : Type := {
  issued : list Call;
  settled : Obj;
  rejection : option Error
}.

Definition task (lookup : SignatureLookup) (a : Obj) : Task :=
  if is_str (get a "type") "function" then
    let '(a', thrown) :=
      match loadFunctions lookup (get a "selector") with
      | Ok r => functionsLoaded a r
      | Err e => (a, Some e)
      end in
    {| issued := [LoadFunctions (get a "selector")]; settled := a'; rejection := thrown |}
  else if is_str (get a "type") "event" then
    let '(a', thrown) :=
      match loadEvents lookup (get a "hash") with
      | Ok r => eventsLoaded a r
      | Err e => (a, Some e)
      end in
    {| issued := [LoadEvents (get a "hash")]; settled := a'; rejection := thrown |}
  else {| issued := []; settled := a; rejection := None |}.

(** [await Promise.all(promises)] (line 110): rejected as soon as one
    promise is; promises are taken to settle in the order they were
    created, so the first rejection in that order is the one reported. *)
Definition promiseAll (tasks : list Task) : Result ABI :=
  match omap rejection tasks with
  | [] => Ok (settled <$> tasks)
  | e :: _ => Err e
  end.

(** Lines 70-112: signature enrichment. *)
Definition enrich (cfg : AutoloadConfig) (abi : ABI) : Run ABI :=
  match configured (signatureLookup cfg) defaultSignatureLookup with
  | None => mret abi
  | Some lookup =>
      emit (Progress "signatureLookup" {[ "abiItems" := VNum (Z.of_nat (List.length abi)) ]});;
      let tasks := task lookup <$> abi in
      (concat (issued <$> tasks), promiseAll tasks)
  end.

(** Lines 61-112: the bytecode stage. *)
Definition fromCode (cfg : AutoloadConfig) (address : string) : Run ABI :=
  emit (Progress "getCode" {[ "address" := VStr address ]});;
  code ← await (GetCode address) (getCode (provider cfg) address);
  enrich cfg (candidates cfg code).

(** Lines 49-112: what runs once the address is settled. *)
Definition fromAddress (cfg : AutoloadConfig) (address : string) : Run ABI :=
  early ← registry cfg address;
  match early with
  | Some abi => mret abi
  | None => fromCode cfg address
  end.

Definition autoload (address : string) (cfg : AutoloadConfig) : Run ABI :=
  address ← normalize cfg address;
  fromAddress cfg address.

(** The answer the signature database gives for an entry, when the loop
    queries it at all. *)
Definition answer (lookup : SignatureLookup) (a : Obj) : option (Result (list string)) :=
  if is_str (get a "type") "function" then Some (loadFunctions lookup (get a "selector"))
  else if is_str (get a "type") "event" then Some (loadEvents lookup (get a "hash"))
  else None.

End Autoload.

(** ** A concrete setting

    The contract of the repository's tests: an unverified contract whose
    bytecode holds the selectors 0x6dbf2fa0 and 0xec0ab6a7 (and, here, one
    event topic), a registry that does not know it, and a signature database
    that knows the first selector. *)

Module Sample.

Definition contract : string := "0x4A137FD5e7a256eF08A7De531A17D0BE0cc7B6b6".
Definition bytecode : string := "0x6080604052".

Definition guessed (selector : string) : Obj :=
  {[ "type" := VStr "function";
     "selector" := VStr selector;
     "inputs" := VArr [VObj [("type", VStr "bytes")]];
     "payable" := VBool true;
     "stateMutability" := VStr "payable" ]}.

Definition topic : Obj :=
  {[ "type" := VStr "event"; "hash" := VStr "0xddf252ad" ]}.

Definition abiFromBytecode (code : string) : ABI :=
  if String.eqb code bytecode
  then [guessed "0x6dbf2fa0"; guessed "0xec0ab6a7"; topic]
  else [].

Definition param (type : string) : value := VObj [("type", VStr type)].

Definition callFragment : Obj :=
  {[ "type" := VStr "function";
     "name" := VStr "call";
     "constant" := VBool false;
     "payable" := VBool false;
     "inputs" := VArr [param "address"; param "uint256"; param "bytes"];
     "outputs" := VArr [] ]}.

Definition transferFragment : Obj :=
  {[ "type" := VStr "event";
     "name" := VStr "Transfer";
     "anonymous" := VBool false;
     "inputs" := VArr [param "address"; param "address"; param "uint256"] ]}.

(** A parser that knows two signatures and throws on anything else. *)
Definition fragmentJson (text : string) : Result Obj :=
  if String.eqb text "function call(address,uint256,bytes)" then Ok callFragment
  else if String.eqb text "event Transfer(address,address,uint256)" then Ok transferFragment
  else Err (MkError "invalid fragment").

Definition node : Provider :=
  {| resolveName name :=
       Ok (if String.eqb name "wallet.eth" then Some contract else None);
     getCode address :=
       Ok (if String.eqb address contract then bytecode else "0x") |}.

Definition registryMiss : ABILoader := {| loadABI _ := Ok [] |}.

Definition verified : ABI :=
  [ {[ "type" := VStr "function"; "name" := VStr "call";
       "inputs" := VArr [param "address"; param "uint256"; param "bytes"] ]} ].

Definition registryHit : ABILoader := {| loadABI _ := Ok verified |}.

Definition registryDown : ABILoader :=
  {| loadABI _ := Err (MkError "registry unreachable") |}.

Definition database : SignatureLookup :=
  {| loadFunctions selector :=
       Ok (if is_str selector "0x6dbf2fa0"
           then ["call(address,uint256,bytes)"; "call_alt(bytes)"]
           else []);
     loadEvents hash :=
       Ok (if is_str hash "0xddf252ad"
           then ["Transfer(address,address,uint256)"]
           else []) |}.

(** A database whose lookup of 0xec0ab6a7 is rejected. *)
Definition flaky : SignatureLookup :=
  {| loadFunctions selector :=
       if is_str selector "0xec0ab6a7" then Err (MkError "lookup timed out")
       else loadFunctions database selector;
     loadEvents := loadEvents database |}.

Definition config (loader : Capability ABILoader) (lookup : Capability SignatureLookup)
    (hook : option (string → Error → value)) (experimental : option bool)
    : AutoloadConfig :=
  {| provider := node;
     abiLoader := loader;
     signatureLookup := lookup;
     onError := hook;
     enableExperimentalMetadata := experimental |}.

(** [autoload] with the imports of this setting; neither default
    capability is taken to be available. *)
Definition run : string → AutoloadConfig → Run ABI :=
  autoload abiFromBytecode Disabled Disabled fragmentJson.

End Sample.

(** ** Reading a run *)

(** The query the loop at lines 79-108 issues for an entry, if any. *)
Definition query (a : Obj) : option Call :=
  if is_str (get a "type") "function" then Some (LoadFunctions (get a "selector"))
  else if is_str (get a "type") "event" then Some (LoadEvents (get a "hash"))
  else None.

(** The phases announced to the progress hook, in order. *)
Definition phases (t : list Call) : list string :=
  omap (λ c, match c with Progress phase _ => Some phase | _ => None end) t.

Definition eventQuery (c : Call) : bool :=
  match c with
  | LoadEvents _ => true
  | _ => false
  end.

(** * Properties *)

(** ** The reliability filter *)

Example strip_example :
  stripUnreliableABI
    [ {[ "type" := VStr "function"; "selector" := VStr "0x6dbf2fa0"; "payable" := VBool true ]};
      {[ "type" := VStr "event"; "hash" := VStr "0xddf2" ]} ]
  = [ {[ "type" := VStr "function"; "selector" := VStr "0x6dbf2fa0" ]} ].
Proof. vm_compute. reflexivity. Qed.

Lemma is_str_eq v s : is_str v s = true → v = VStr s.
Proof.
  destruct v; simpl; try discriminate.
  intros H. apply String.eqb_eq in H. by subst.
Qed.

Lemma strippedEntry_type a : strippedEntry a !! "type" = Some (VStr "function").
Proof. unfold strippedEntry. by rewrite lookup_insert_eq. Qed.

Lemma strippedEntry_selector a : strippedEntry a !! "selector" = Some (get a "selector").
Proof.
  unfold strippedEntry. rewrite lookup_insert_ne by done.
  by rewrite lookup_insert_eq.
Qed.


Lemma strippedEntry_idem a : strippedEntry (strippedEntry a) = strippedEntry a.
Proof.
  unfold strippedEntry at 1. unfold get.
  by rewrite strippedEntry_selector.
Qed.

Lemma strip_as_filter (abi : ABI) :
  stripUnreliableABI abi
  = strippedEntry <$> filter (λ a, is_str (get a "type") "function") abi.
Proof.
  induction abi as [|a abi IH]; [done|].
  simpl. rewrite filter_cons.
  destruct (is_str (get a "type") "function") eqn:E.
  - rewrite decide_True by done. simpl. by rewrite IH.
  - rewrite decide_False by (by intros ?). done.
Qed.

(** C9. The reliability filter is idempotent: filtering an already filtered
    ABI gives the same ABI. *)
Theorem stripUnreliableABI_idempotent (abi : ABI) :
  stripUnreliableABI (stripUnreliableABI abi) = stripUnreliableABI abi.
Proof.
  induction abi as [|a abi IH]; [done|].
  simpl. destruct (is_str (get a "type") "function"); [|done].
  simpl. unfold get at 1. rewrite strippedEntry_type. simpl.
  by rewrite strippedEntry_idem, IH.
Qed.



(** ** Enrichment of one entry *)

Lemma setSigAlts_other r (a : Obj) k :
  k ≠ "sigAlts" → setSigAlts r a !! k = a !! k.
Proof.
  intros Hk. unfold setSigAlts.
  destruct (Nat.ltb 1 (List.length r)); [|done].
  by rewrite lookup_insert_ne.
Qed.

Lemma setSigAlts_single sig (a : Obj) : setSigAlts [sig] a = a.
Proof. done. Qed.

Lemma setSigAlts_several sig alt rest (a : Obj) :
  setSigAlts (sig :: alt :: rest) a !! "sigAlts" = Some (VArr (VStr <$> alt :: rest)).
Proof. unfold setSigAlts. simpl. by rewrite lookup_insert_eq. Qed.

Lemma promiseAll_fulfilled tasks abi :
  promiseAll tasks = Ok abi → abi = settled <$> tasks.
Proof.
  unfold promiseAll. destruct (omap rejection tasks); [|discriminate].
  by intros [= <-].
Qed.

Lemma promiseAll_rejected tasks t e :
  t ∈ tasks → rejection t = Some e →
  ∃ e', promiseAll tasks = Err e' ∧ e' ∈ omap rejection tasks.
Proof.
  intros Hin Hrej. unfold promiseAll.
  assert (e ∈ omap rejection tasks) as He by (apply list_elem_of_omap; eauto).
  destruct (omap rejection tasks) as [|e' l]; [by apply elem_of_nil in He|].
  exists e'. split; [done|]. apply list_elem_of_here.
Qed.

Section Enrichment.

Variable fragmentJson : string → Result Obj.
Variable lookup : SignatureLookup.

Lemma task_function (a : Obj) :
  is_str (get a "type") "function" = true →
  task fragmentJson lookup a
  = let '(a', thrown) :=
      match loadFunctions lookup (get a "selector") with
      | Ok r => functionsLoaded fragmentJson a r
      | Err e => (a, Some e)
      end in
    {| issued := [LoadFunctions (get a "selector")]; settled := a'; rejection := thrown |}.
Proof. intros H. unfold task. by rewrite H. Qed.

Lemma task_event (a : Obj) :
  is_str (get a "type") "function" = false →
  is_str (get a "type") "event" = true →
  task fragmentJson lookup a
  = let '(a', thrown) :=
      match loadEvents lookup (get a "hash") with
      | Ok r => eventsLoaded fragmentJson a r
      | Err e => (a, Some e)
      end in
    {| issued := [LoadEvents (get a "hash")]; settled := a'; rejection := thrown |}.
Proof. intros H1 H2. unfold task. by rewrite H1, H2. Qed.

Lemma task_other (a : Obj) :
  is_str (get a "type") "function" = false →
  is_str (get a "type") "event" = false →
  task fragmentJson lookup a = {| issued := []; settled := a; rejection := None |}.
Proof. intros H1 H2. unfold task. by rewrite H1, H2. Qed.


(** C7. An entry whose query is answered with no signature at all comes
    out of enrichment exactly as it went in: its task does not reject, and
    the ABI that [Promise.all] hands back has the very same entry at the
    same position. *)
Theorem zero_hits_leave_entry_unchanged (a : Obj) :
  answer lookup a = Some (Ok []) →
  settled (task fragmentJson lookup a) = a
  ∧ rejection (task fragmentJson lookup a) = None
  ∧ ∀ (abi abi' : ABI) (i : nat),
      abi !! i = Some a →
      promiseAll (task fragmentJson lookup <$> abi) = Ok abi' →
      abi' !! i = Some a.
Proof.
  intros Hans.
  assert (settled (task fragmentJson lookup a) = a
          ∧ rejection (task fragmentJson lookup a) = None) as [Hs Hr].
  { revert Hans. unfold answer, task.
    destruct (is_str (get a "type") "function").
    - intros [= ->]. done.
    - destruct (is_str (get a "type") "event"); [|discriminate].
      intros [= ->]. done. }
  repeat split; [done..|].
  intros abi abi' i Hi Hall.
  apply promiseAll_fulfilled in Hall as ->.
  rewrite !list_lookup_fmap, Hi. simpl. by rewrite Hs.
Qed.

End Enrichment.

Lemma zero_hits_leave_entry_unchanged_witness :
  let a : Obj := strippedEntry (Sample.guessed "0xec0ab6a7") in
  settled (task Sample.fragmentJson Sample.database a) = a.
Proof.
  intros a.
  apply (zero_hits_leave_entry_unchanged Sample.fragmentJson Sample.database a).
  vm_compute. reflexivity.
Defined.

(** [Object.assign(a, extracted)]: a property of [extracted] wins, any other
    property of [a] stays. *)
Lemma assign_lookup (extracted a : Obj) k :
  (extracted ∪ a) !! k
  = match extracted !! k with
    | Some v => Some v
    | None => a !! k
    end.
Proof.
  destruct (extracted !! k) eqn:E.
  - by apply lookup_union_Some_l.
  - by apply lookup_union_r.
Qed.

Lemma length_is_zero_defined (o : Obj) k empty :
  length_is_zero (get o k) = Ok empty → ∃ v, o !! k = Some v.
Proof.
  unfold get. destruct (o !! k); [eauto|]. simpl. discriminate.
Qed.

Section FunctionHits.

Variable fragmentJson : string → Result Obj.

(** C6 (as the code has it). When the query for a function entry returns
    [sig :: rest] and [sig] parses, the callback does not throw and leaves
    the entry with: [sig] as its signature; [rest] as its [sigAlts] when
    [rest] is not empty, and [sigAlts] not written at all when [sig] was the
    only hit; every parsed field copied over the entry's own, except that
    an empty parsed [outputs] is dropped first, so the entry keeps the
    [outputs] it had; every other property as it was. *)
Theorem function_hits_enrich_entry (a extracted : Obj) (sig : string)
    (rest : list string) (empty : bool) :
  fragmentJson ("function " ++ sig) = Ok extracted →
  length_is_zero (get extracted "outputs") = Ok empty →
  let a' := (functionsLoaded fragmentJson a (sig :: rest)).1 in
  (functionsLoaded fragmentJson a (sig :: rest)).2 = None
  ∧ (extracted !! "sig" = None → a' !! "sig" = Some (VStr sig))
  ∧ (rest ≠ [] → a' !! "sigAlts" = Some (VArr (VStr <$> rest)))
  ∧ (rest = [] → a' !! "sigAlts" = (extracted ∪ a) !! "sigAlts")
  ∧ (∀ k v, k ≠ "sigAlts" → k ≠ "outputs" →
       extracted !! k = Some v → a' !! k = Some v)
  ∧ a' !! "outputs" = (if empty then a !! "outputs" else extracted !! "outputs")
  ∧ (∀ k, k ≠ "sig" → k ≠ "sigAlts" → extracted !! k = None → a' !! k = a !! k).
Proof.
  intros Hparse Hlen a'. subst a'.
  unfold functionsLoaded. rewrite Hparse, Hlen. simpl.
  split; [done|].
  set (ex := if empty then delete "outputs" extracted else extracted).
  assert (∀ k, k ≠ "outputs" → ex !! k = extracted !! k) as Hex.
  { intros k Hk. unfold ex. destruct empty; [|done]. by rewrite lookup_delete_ne. }
  split; [|split; [|split; [|split; [|split]]]].
  - intros Hsig. rewrite setSigAlts_other by done.
    rewrite assign_lookup, Hex by done. rewrite Hsig.
    by rewrite lookup_insert_eq.
  - intros Hrest. destruct rest as [|alt rest']; [done|].
    apply setSigAlts_several.
  - intros ->. rewrite setSigAlts_single.
    rewrite !assign_lookup, Hex by done.
    destruct (extracted !! "sigAlts"); [done|].
    by rewrite lookup_insert_ne.
  - intros k v Hk1 Hk2 Hk. rewrite setSigAlts_other by done.
    by rewrite assign_lookup, Hex, Hk.
  - rewrite setSigAlts_other by done. rewrite assign_lookup.
    unfold ex. destruct empty.
    + rewrite lookup_delete_eq. by rewrite lookup_insert_ne.
    + destruct (length_is_zero_defined _ _ _ Hlen) as [v Hv]. by rewrite Hv.
  - intros k Hk1 Hk2 Hk. rewrite setSigAlts_other by done.
    rewrite assign_lookup.
    assert (ex !! k = None) as ->.
    { unfold ex. destruct empty; [|done].
      destruct (decide (k = "outputs")) as [->|Hne].
      - apply lookup_delete_eq.
      - by rewrite lookup_delete_ne. }
    by rewrite lookup_insert_ne.
Qed.

(** When the first hit does not parse, the signature has already been
    written, nothing else is, and the callback throws. *)
Lemma function_hit_not_parsed (a : Obj) sig rest thrown :
  fragmentJson ("function " ++ sig) = Err thrown →
  functionsLoaded fragmentJson a (sig :: rest) = (<["sig" := VStr sig]> a, Some thrown).
Proof. intros H. unfold functionsLoaded. by rewrite H. Qed.

End FunctionHits.

Lemma function_hits_enrich_entry_witness :
  let a : Obj := strippedEntry (Sample.guessed "0x6dbf2fa0") in
  (functionsLoaded Sample.fragmentJson a
     ["call(address,uint256,bytes)"; "call_alt(bytes)"]).2 = None.
Proof.
  intros a.
  apply (function_hits_enrich_entry Sample.fragmentJson a Sample.callFragment
           "call(address,uint256,bytes)" ["call_alt(bytes)"] true).
  - vm_compute. reflexivity.
  - vm_compute. reflexivity.
Defined.

(** C6 as the specification words it fails twice over.  With a single hit
    the entry gets no [sigAlts] at all, which is not the (empty) array of the
    remaining hits; and with a first hit that does not parse, the remaining
    hits are never attached and the entry's task rejects. *)
Lemma alternates_not_always_attached :
  let a : Obj := strippedEntry (Sample.guessed "0x6dbf2fa0") in
  get (functionsLoaded Sample.fragmentJson a ["call(address,uint256,bytes)"]).1 "sigAlts"
    ≠ VArr (VStr <$> drop 1 ["call(address,uint256,bytes)"])
  ∧ get (functionsLoaded Sample.fragmentJson a ["call"; "call(bytes)"]).1 "sigAlts"
    ≠ VArr (VStr <$> drop 1 ["call"; "call(bytes)"])
  ∧ (functionsLoaded Sample.fragmentJson a ["call"; "call(bytes)"]).2
    = Some (MkError "invalid fragment").
Proof.
  intros a. repeat split; vm_compute; try reflexivity; discriminate.
Qed.

(** ** What enrichment never touches *)

Section Identity.

Variable fragmentJson : string → Result Obj.
Variable lookup : SignatureLookup.

(** What the fragment parser is relied on for: a parsed function fragment
    carries no [selector] and, if it carries a [type], it is "function";
    likewise [hash] and "event" for an event fragment. *)
Hypothesis function_fragment : ∀ sig o,
  fragmentJson ("function " ++ sig) = Ok o →
  o !! "selector" = None ∧ ∀ v, o !! "type" = Some v → v = VStr "function".
Hypothesis event_fragment : ∀ sig o,
  fragmentJson ("event " ++ sig) = Ok o →
  o !! "hash" = None ∧ ∀ v, o !! "type" = Some v → v = VStr "event".

Lemma functionsLoaded_identity (a : Obj) r :
  is_str (get a "type") "function" = true →
  let a' := (functionsLoaded fragmentJson a r).1 in
  get a' "type" = get a "type" ∧ get a' "selector" = get a "selector".
Proof.
  intros Hty. apply is_str_eq in Hty.
  unfold functionsLoaded. destruct r as [|sig rest]; [done|].
  assert (∀ k, k ≠ "sig" → get (<["sig" := VStr sig]> a) k = get a k) as Hsig.
  { intros k Hk. unfold get. by rewrite lookup_insert_ne. }
  destruct (fragmentJson ("function " ++ sig)) as [extracted|thrown] eqn:Hparse;
    [|simpl; by rewrite !Hsig].
  destruct (length_is_zero (get extracted "outputs")) as [empty|thrown];
    [|simpl; by rewrite !Hsig].
  destruct (function_fragment _ _ Hparse) as [Hsel Htype].
  simpl. unfold get at 1 3.
  rewrite !setSigAlts_other, !assign_lookup by done.
  assert (∀ k, k ≠ "outputs" →
            (if empty then delete "outputs" extracted else extracted) !! k
            = extracted !! k) as Hex.
  { intros k Hk. destruct empty; [|done]. by rewrite lookup_delete_ne. }
  rewrite !Hex, Hsel by done. split.
  - destruct (extracted !! "type") as [v|] eqn:Ev.
    + rewrite (Htype v eq_refl). by rewrite Hty.
    + by rewrite lookup_insert_ne.
  - by rewrite lookup_insert_ne.
Qed.

Lemma eventsLoaded_identity (a : Obj) r :
  is_str (get a "type") "event" = true →
  let a' := (eventsLoaded fragmentJson a r).1 in
  get a' "type" = get a "type" ∧ get a' "hash" = get a "hash".
Proof.
  intros Hty. apply is_str_eq in Hty.
  unfold eventsLoaded. destruct r as [|sig rest]; [done|].
  assert (∀ k, k ≠ "sig" → get (<["sig" := VStr sig]> a) k = get a k) as Hsig.
  { intros k Hk. unfold get. by rewrite lookup_insert_ne. }
  destruct (fragmentJson ("event " ++ sig)) as [extracted|thrown] eqn:Hparse;
    [|simpl; by rewrite !Hsig].
  destruct (event_fragment _ _ Hparse) as [Hhash Htype].
  simpl. unfold get at 1 3.
  rewrite !setSigAlts_other, !assign_lookup by done.
  rewrite Hhash. split.
  - destruct (extracted !! "type") as [v|] eqn:Ev.
    + rewrite (Htype v eq_refl). by rewrite Hty.
    + by rewrite lookup_insert_ne.
  - by rewrite lookup_insert_ne.
Qed.

(** C10. Whatever the signature database answers for an entry (no hit, one,
    several, or a rejection), the entry keeps its [type]; a function entry
    keeps its [selector] and an event entry its [hash]; and the entry at
    that position of the ABI that enrichment returns is this very entry. *)
Theorem enrichment_preserves_identity (a : Obj) :
  let a' := settled (task fragmentJson lookup a) in
  get a' "type" = get a "type"
  ∧ (is_str (get a "type") "function" = true → get a' "selector" = get a "selector")
  ∧ (is_str (get a "type") "event" = true → get a' "hash" = get a "hash")
  ∧ ∀ (abi abi' : ABI) (i : nat),
      abi !! i = Some a →
      promiseAll (task fragmentJson lookup <$> abi) = Ok abi' →
      abi' !! i = Some a'.
Proof.
  intros a'.
  assert (get a' "type" = get a "type"
    ∧ (is_str (get a "type") "function" = true → get a' "selector" = get a "selector")
    ∧ (is_str (get a "type") "event" = true → get a' "hash" = get a "hash"))
    as (H1 & H2 & H3).
  { subst a'.
    destruct (is_str (get a "type") "function") eqn:Hf.
    - rewrite task_function by done.
      assert (is_str (get a "type") "event" = false) as ->.
      { apply is_str_eq in Hf. by rewrite Hf. }
      destruct (loadFunctions lookup (get a "selector")) as [r|e]; [|done].
      pose proof (functionsLoaded_identity a r Hf) as [Ht Hs].
      destruct (functionsLoaded fragmentJson a r) as [b thrown].
      simpl in *. done.
    - destruct (is_str (get a "type") "event") eqn:He.
      + rewrite task_event by done.
        destruct (loadEvents lookup (get a "hash")) as [r|e]; [|done].
        pose proof (eventsLoaded_identity a r He) as [Ht Hs].
        destruct (eventsLoaded fragmentJson a r) as [b thrown].
        simpl in *. done.
      + rewrite task_other by done. done. }
  repeat split; [done..|].
  intros abi abi' i Hi Hall.
  apply promiseAll_fulfilled in Hall as ->.
  by rewrite !list_lookup_fmap, Hi.
Qed.

End Identity.

Lemma sample_function_fragment sig o :
  Sample.fragmentJson ("function " ++ sig) = Ok o →
  o !! "selector" = None ∧ ∀ v, o !! "type" = Some v → v = VStr "function".
Proof.
  unfold Sample.fragmentJson. simpl.
  match goal with |- context [String.eqb ?x ?y] => destruct (String.eqb x y) end;
    [|discriminate].
  intros [= <-]. split; [by vm_compute|]. vm_compute. by intros v [= <-].
Qed.

Lemma sample_event_fragment sig o :
  Sample.fragmentJson ("event " ++ sig) = Ok o →
  o !! "hash" = None ∧ ∀ v, o !! "type" = Some v → v = VStr "event".
Proof.
  unfold Sample.fragmentJson. simpl.
  match goal with |- context [String.eqb ?x ?y] => destruct (String.eqb x y) end;
    [|discriminate].
  intros [= <-]. split; [by vm_compute|]. vm_compute. by intros v [= <-].
Qed.

Lemma enrichment_preserves_identity_witness :
  let a : Obj := strippedEntry (Sample.guessed "0x6dbf2fa0") in
  get (settled (task Sample.fragmentJson Sample.database a)) "type" = get a "type".
Proof.
  intros a.
  apply (enrichment_preserves_identity Sample.fragmentJson Sample.database
           sample_function_fragment sample_event_fragment a).
Defined.

(** ** The pipeline *)

(** Case analysis on which call of an explicit trace a given call is. *)
Ltac which_call H :=
  simpl in H; rewrite ?elem_of_cons, ?elem_of_nil in H;
  repeat match type of H with
         | _ ∨ _ => destruct H as [H|H]
         end;
  try discriminate; try done.

Lemma bind_fulfilled {A B} (t : list Call) (a : A) (k : A → Run B) :
  ((t, Ok a) ≫= k : Run B) = after t (k a).
Proof. unfold mbind, run_bind, after. by destruct (k a). Qed.

Lemma bind_rejected {A B} (t : list Call) e (k : A → Run B) :
  ((t, Err e) ≫= k : Run B) = (t, Err e).
Proof. done. Qed.

Lemma after_nil {A} (r : Run A) : after [] r = r.
Proof. by destruct r. Qed.

Lemma after_after {A} t t' (r : Run A) : after t (after t' r) = after (t ++ t')%list r.
Proof. unfold after. simpl. by rewrite app_assoc. Qed.

Lemma quiet_app kind t t' : quiet kind t → quiet kind t' → quiet kind (t ++ t')%list.
Proof. unfold quiet. rewrite Forall_app. done. Qed.

Section Pipeline.

Variable abiFromBytecode : string → ABI.
Variable defaultABILoader : Capability ABILoader.
Variable defaultSignatureLookup : Capability SignatureLookup.
Variable fragmentJson : string → Result Obj.

#[local] Abbreviation resolve :=
  (autoload abiFromBytecode defaultABILoader defaultSignatureLookup fragmentJson).
#[local] Abbreviation pipeline :=
  (fromAddress abiFromBytecode defaultABILoader defaultSignatureLookup fragmentJson).
#[local] Abbreviation bytecodeStage :=
  (fromCode abiFromBytecode defaultSignatureLookup fragmentJson).
#[local] Abbreviation registryStage := (registry defaultABILoader).
#[local] Abbreviation enrichment := (enrich defaultSignatureLookup fragmentJson).
#[local] Abbreviation candidateSet := (candidates abiFromBytecode).

(** The shape of each stage. *)

Lemma normalize_address cfg input :
  isAddress input = true → normalize cfg input = ([], Ok input).
Proof. intros H. unfold normalize. by rewrite H. Qed.

Lemma normalize_name cfg input :
  isAddress input = false →
  normalize cfg input
  = after [Progress "resolveName" {[ "address" := VStr input ]}; ResolveName input]
      (match resolveName (provider cfg) input with
       | Ok r => ([], Ok (match r with
                          | Some resolved =>
                              if String.eqb resolved "" then input else resolved
                          | None => input
                          end))
       | Err e => ([], Err e)
       end).
Proof.
  intros H. unfold normalize. rewrite H. unfold emit, await.
  rewrite bind_fulfilled.
  destruct (resolveName (provider cfg) input); done.
Qed.

Lemma normalize_quiet cfg input :
  quiet bytecodeCall (normalize cfg input).1
  ∧ quiet signatureQuery (normalize cfg input).1.
Proof.
  destruct (isAddress input) eqn:H.
  - rewrite normalize_address by done. split; constructor.
  - rewrite normalize_name by done.
    destruct (resolveName (provider cfg) input); simpl;
      split; repeat constructor.
Qed.

Lemma autoload_normalized cfg input t0 address :
  normalize cfg input = (t0, Ok address) →
  resolve input cfg = after t0 (pipeline cfg address).
Proof.
  intros H. unfold autoload. rewrite H.
  apply bind_fulfilled.
Qed.

Lemma registry_disabled cfg address :
  configured (abiLoader cfg) defaultABILoader = None →
  registryStage cfg address = ([], Ok None).
Proof. intros H. unfold registry. by rewrite H. Qed.

Lemma registry_answered cfg address loader abi :
  configured (abiLoader cfg) defaultABILoader = Some loader →
  loadABI loader address = Ok abi →
  registryStage cfg address
  = ([Progress "abiLoader" {[ "address" := VStr address ]}; LoadABI address],
     Ok (if Nat.ltb 0 (List.length abi) then Some abi else None)).
Proof.
  intros H1 H2. unfold registry. by rewrite H1, H2.
Qed.

Lemma registry_failed cfg address loader e :
  configured (abiLoader cfg) defaultABILoader = Some loader →
  loadABI loader address = Err e →
  registryStage cfg address
  = after [Progress "abiLoader" {[ "address" := VStr address ]}; LoadABI address;
           OnError "abiLoad" e]
      (match onError cfg with
       | Some hook =>
           ([], Ok (if is_true (hook "abiLoad" e) then Some [] else None))
       | None => ([ConsoleError "abiLoad:" e], Ok None)
       end).
Proof.
  intros H1 H2. unfold registry. rewrite H1, H2.
  unfold callOnError. by destruct (onError cfg).
Qed.

Lemma fromAddress_staged cfg address t1 early :
  registryStage cfg address = (t1, Ok early) →
  pipeline cfg address
  = after t1 (match early with
              | Some abi => ([], Ok abi)
              | None => bytecodeStage cfg address
              end).
Proof.
  intros H. unfold fromAddress.
  rewrite H. rewrite bind_fulfilled. by destruct early.
Qed.

Lemma fromCode_fetched cfg address code :
  getCode (provider cfg) address = Ok code →
  bytecodeStage cfg address
  = after [Progress "getCode" {[ "address" := VStr address ]}; GetCode address]
      (enrichment cfg (candidateSet cfg code)).
Proof.
  intros H. unfold fromCode. rewrite H.
  unfold emit, await. rewrite !bind_fulfilled.
  by rewrite after_after.
Qed.

Lemma enrich_disabled cfg abi :
  configured (signatureLookup cfg) defaultSignatureLookup = None →
  enrichment cfg abi = ([], Ok abi).
Proof. intros H. unfold enrich. by rewrite H. Qed.

Lemma enrich_enabled cfg abi lookup :
  configured (signatureLookup cfg) defaultSignatureLookup = Some lookup →
  enrichment cfg abi
  = (Progress "signatureLookup" {[ "abiItems" := VNum (Z.of_nat (List.length abi)) ]}
       :: concat (issued <$> (task fragmentJson lookup <$> abi)),
     promiseAll (task fragmentJson lookup <$> abi)).
Proof. intros H. unfold enrich. by rewrite H. Qed.

(** The registry stage never rejects, and calls neither the name resolver
    nor anything of the bytecode stage. *)
Lemma registry_shape cfg address :
  ∃ t1 early, registryStage cfg address = (t1, Ok early)
    ∧ quiet nameResolution t1 ∧ quiet bytecodeCall t1 ∧ quiet signatureQuery t1.
Proof.
  destruct (configured (abiLoader cfg) defaultABILoader) as [loader|] eqn:Hc.
  - destruct (loadABI loader address) as [abi|e] eqn:Hl.
    + rewrite (registry_answered _ _ _ _ Hc Hl).
      do 2 eexists. split; [done|]. repeat split; repeat constructor.
    + rewrite (registry_failed _ _ _ _ Hc Hl).
      destruct (onError cfg) as [hook|]; unfold after; simpl;
        do 2 eexists; (split; [done|]); repeat split; repeat constructor.
  - rewrite (registry_disabled _ _ Hc).
    do 2 eexists. split; [done|]. repeat split; constructor.
Qed.

(** Nothing after normalization resolves a name. *)
Lemma fromAddress_resolves_no_name cfg address :
  quiet nameResolution (pipeline cfg address).1.
Proof.
  assert (∀ abi, quiet nameResolution (enrichment cfg abi).1) as Henrich.
  { intros abi. unfold enrich.
    destruct (configured _ _) as [lookup|]; [|constructor].
    simpl. constructor; [done|].
    apply Forall_concat, Forall_fmap, Forall_fmap, Forall_forall.
    intros a _. simpl. unfold task.
    destruct (is_str (get a "type") "function").
    - destruct (match loadFunctions lookup _ with Ok r => _ | Err e => _ end).
      repeat constructor.
    - destruct (is_str (get a "type") "event"); [|constructor].
      destruct (match loadEvents lookup _ with Ok r => _ | Err e => _ end).
      repeat constructor. }
  assert (quiet nameResolution (bytecodeStage cfg address).1) as Hcode.
  { unfold fromCode, emit, await.
    rewrite bind_fulfilled.
    destruct (getCode (provider cfg) address) as [code|e];
      [|repeat constructor].
    rewrite bind_fulfilled. simpl.
    constructor; [done|]. constructor; [done|]. apply Henrich. }
  destruct (registry_shape cfg address) as (t1 & early & Hr & Hq & _).
  rewrite (fromAddress_staged _ _ _ _ Hr). unfold after. simpl.
  apply quiet_app; [done|].
  destruct early; [constructor|apply Hcode].
Qed.

Lemma isAddress_accepts s :
  isAddress s = true ↔ String.length s = 42 ∧ String.prefix "0x" s = true.
Proof. unfold isAddress, startsWith. by rewrite andb_true_iff, Nat.eqb_eq. Qed.

Lemma isAddress_rejects s :
  isAddress s = false ↔ String.length s ≠ 42 ∨ String.prefix "0x" s = false.
Proof.
  unfold isAddress, startsWith. rewrite andb_false_iff, Nat.eqb_neq. done.
Qed.

Lemma hexAddressFormat_isAddress s : hexAddressFormat s = true → isAddress s = true.
Proof.
  unfold hexAddressFormat, isAddress, startsWith.
  rewrite !andb_true_iff. by intros [[-> ->] _].
Qed.

(** C8 (as the code has it). An input that is not 42 characters long, or
    does not start with 0x, is announced with the [resolveName] progress
    event and handed to [provider.resolveName]; the pipeline then runs on the
    name the provider gave, or on the input itself when the provider gave
    none (null, or the empty string, which is just as falsy).  An input that
    is 42 characters long and starts with 0x goes to the pipeline as it is
    and no name is resolved anywhere in the run, whether or not its other
    characters are hex digits; every address in the hex format is such an
    input. *)
Theorem names_are_resolved_addresses_are_not (input : string) (cfg : AutoloadConfig) :
  let calls := [Progress "resolveName" {[ "address" := VStr input ]}; ResolveName input] in
  (String.length input ≠ 42 ∨ String.prefix "0x" input = false →
     (∃ rest, (resolve input cfg).1 = (calls ++ rest)%list)
     ∧ (∀ resolved, resolveName (provider cfg) input = Ok (Some resolved) →
          resolved ≠ "" →
          resolve input cfg = after calls (pipeline cfg resolved))
     ∧ (resolveName (provider cfg) input = Ok None
        ∨ resolveName (provider cfg) input = Ok (Some "") →
          resolve input cfg = after calls (pipeline cfg input)))
  ∧ (String.length input = 42 → String.prefix "0x" input = true →
     resolve input cfg = pipeline cfg input
     ∧ quiet nameResolution (resolve input cfg).1)
  ∧ (hexAddressFormat input = true →
     resolve input cfg = pipeline cfg input
     ∧ quiet nameResolution (resolve input cfg).1).
Proof.
  intros calls.
  assert (isAddress input = true →
          resolve input cfg = pipeline cfg input
          ∧ quiet nameResolution (resolve input cfg).1) as Haddress.
  { intros Haddr.
    pose proof (autoload_normalized _ _ _ _ (normalize_address cfg input Haddr)) as Ha.
    rewrite after_nil in Ha. rewrite Ha. split; [done|].
    apply fromAddress_resolves_no_name. }
  split; [|split].
  - intros Hname. apply isAddress_rejects in Hname.
    pose proof (normalize_name cfg input Hname) as Hn. fold calls in Hn.
    split; [|split].
    + unfold autoload. rewrite Hn.
      destruct (resolveName (provider cfg) input) as [r|e]; unfold after at 1; simpl.
      * clear Haddress. destruct (pipeline cfg _) as [t' r']. simpl. eauto.
      * exists []. done.
    + intros resolved Hr Hne. rewrite Hr in Hn.
      assert (String.eqb resolved "" = false) as Hneq
        by (by apply String.eqb_neq).
      rewrite Hneq in Hn. unfold after in Hn. simpl in Hn.
      by rewrite (autoload_normalized _ _ _ _ Hn).
    + intros [Hr|Hr]; rewrite Hr in Hn; unfold after in Hn; simpl in Hn;
        by rewrite (autoload_normalized _ _ _ _ Hn).
  - intros Hlen Hpre. apply Haddress. by apply isAddress_accepts.
  - intros Hhex. by apply Haddress, hexAddressFormat_isAddress.
Qed.

(** C4. When the registry answers with at least one entry, [autoload]
    returns that ABI as it came and makes no call of the bytecode stage:
    after normalization it has only announced and queried the registry.
    When the registry answers with no entry, the run goes on with the
    bytecode stage. *)
Theorem registry_answer_short_circuits (input address : string) (cfg : AutoloadConfig)
    (t0 : list Call) (loader : ABILoader) (abi : ABI) :
  normalize cfg input = (t0, Ok address) →
  configured (abiLoader cfg) defaultABILoader = Some loader →
  loadABI loader address = Ok abi →
  let calls :=
    (t0 ++ [Progress "abiLoader" {[ "address" := VStr address ]}; LoadABI address])%list in
  (abi ≠ [] → resolve input cfg = (calls, Ok abi) ∧ quiet bytecodeCall calls)
  ∧ (abi = [] → resolve input cfg = after calls (bytecodeStage cfg address)).
Proof.
  intros Hn Hc Hl calls.
  pose proof (registry_answered _ _ _ _ Hc Hl) as Hr.
  rewrite (autoload_normalized _ _ _ _ Hn), (fromAddress_staged _ _ _ _ Hr).
  rewrite after_after. fold calls. split.
  - intros Hne. destruct abi as [|a abi']; [done|]. simpl. split.
    + unfold after. simpl. subst calls. by rewrite ?app_nil_r.
    + apply quiet_app.
      * pose proof (normalize_quiet cfg input) as [Hq _]. by rewrite Hn in Hq.
      * repeat constructor.
  - intros ->. done.
Qed.

(** What the error hook's answer does (line 57).  When the registry lookup
    fails, the hook is called with phase [abiLoad]; [autoload] stops and
    returns the empty ABI exactly when the hook answers the boolean [true].
    Any other answer, falsy or truthy, and likewise the default hook when
    none is configured, lets the run go on with the bytecode stage. *)
Theorem registry_failure_aborts_on_true_only (input address : string)
    (cfg : AutoloadConfig) (t0 : list Call) (loader : ABILoader) (e : Error) :
  normalize cfg input = (t0, Ok address) →
  configured (abiLoader cfg) defaultABILoader = Some loader →
  loadABI loader address = Err e →
  let calls :=
    (t0 ++ [Progress "abiLoader" {[ "address" := VStr address ]}; LoadABI address;
            OnError "abiLoad" e])%list in
  (∀ hook, onError cfg = Some hook →
     hook "abiLoad" e = VBool true →
     resolve input cfg = (calls, Ok []) ∧ quiet bytecodeCall calls)
  ∧ (∀ hook, onError cfg = Some hook →
     hook "abiLoad" e ≠ VBool true →
     resolve input cfg = after calls (bytecodeStage cfg address))
  ∧ (onError cfg = None →
     resolve input cfg
     = after (calls ++ [ConsoleError "abiLoad:" e])%list (bytecodeStage cfg address)).
Proof.
  intros Hn Hc Hl calls.
  pose proof (registry_failed _ _ _ _ Hc Hl) as Hr.
  rewrite (autoload_normalized _ _ _ _ Hn).
  split; [|split].
  - intros hook Hh Htrue. rewrite Hh, Htrue in Hr.
    unfold after at 1 in Hr. simpl in Hr.
    rewrite (fromAddress_staged _ _ _ _ Hr). split.
    + unfold after. simpl. subst calls. by rewrite ?app_nil_r.
    + apply quiet_app.
      * pose proof (normalize_quiet cfg input) as [Hq _]. by rewrite Hn in Hq.
      * repeat constructor.
  - intros hook Hh Hother. rewrite Hh in Hr.
    assert (is_true (hook "abiLoad" e) = false) as Hstrict.
    { destruct (hook "abiLoad" e) as [| |[]| | | |]; done. }
    rewrite Hstrict in Hr. unfold after at 1 in Hr. simpl in Hr.
    rewrite (fromAddress_staged _ _ _ _ Hr). by rewrite after_after.
  - intros Hh. rewrite Hh in Hr. unfold after at 1 in Hr. simpl in Hr.
    rewrite (fromAddress_staged _ _ _ _ Hr). rewrite after_after.
    subst calls. by rewrite <- app_assoc.
Qed.

(** C3 (as the code has it). When the signature lookup in effect (the
    configured one, or the default one when the option is left unset) is
    disabled, a run that reaches the bytecode stage returns the candidate
    set as the filtering step left it, and queries no signature database.
    That set is the filtered one unless [enableExperimentalMetadata] is
    true, in which case it is the extractor's output untouched. *)
Theorem disabled_lookup_returns_candidates (input address code : string)
    (cfg : AutoloadConfig) (t0 t1 : list Call) :
  normalize cfg input = (t0, Ok address) →
  registryStage cfg address = (t1, Ok None) →
  getCode (provider cfg) address = Ok code →
  configured (signatureLookup cfg) defaultSignatureLookup = None →
  resolve input cfg
    = ((t0 ++ t1 ++ [Progress "getCode" {[ "address" := VStr address ]};
                     GetCode address])%list,
       Ok (candidateSet cfg code))
  ∧ quiet signatureQuery (resolve input cfg).1
  ∧ (enableExperimentalMetadata cfg ≠ Some true →
       candidateSet cfg code = stripUnreliableABI (abiFromBytecode code))
  ∧ (enableExperimentalMetadata cfg = Some true →
       candidateSet cfg code = abiFromBytecode code).
Proof.
  intros Hn Hr Hcode Hoff.
  assert (resolve input cfg
    = ((t0 ++ t1 ++ [Progress "getCode" {[ "address" := VStr address ]};
                     GetCode address])%list,
       Ok (candidateSet cfg code))) as Hrun.
  { rewrite (autoload_normalized _ _ _ _ Hn), (fromAddress_staged _ _ _ _ Hr).
    rewrite (fromCode_fetched _ _ _ Hcode), (enrich_disabled _ _ Hoff).
    unfold after. simpl. by rewrite ?app_nil_r. }
  split; [done|]. rewrite Hrun. simpl. split; [|split].
  - apply quiet_app; [|apply quiet_app].
    + pose proof (normalize_quiet cfg input) as [_ Hq]. by rewrite Hn in Hq.
    + destruct (registry_shape cfg address) as (t & early & Ht & _ & _ & Hq).
      rewrite Hr in Ht. by injection Ht as -> _.
    + repeat constructor.
  - intros Hflag. unfold candidates.
    by destruct (enableExperimentalMetadata cfg) as [[]|].
  - intros Hflag. unfold candidates. by rewrite Hflag.
Qed.


End Pipeline.

(** ** The theorems at work on the sample contract *)

Lemma names_are_resolved_addresses_are_not_witness :
  let cfg := Sample.config Disabled Disabled None None in
  String.length "wallet.eth" ≠ 42
  ∧ Sample.run "wallet.eth" cfg
    = after [Progress "resolveName" {[ "address" := VStr "wallet.eth" ]};
             ResolveName "wallet.eth"]
        (fromAddress Sample.abiFromBytecode Disabled Disabled Sample.fragmentJson
           cfg Sample.contract).
Proof.
  intros cfg. split; [simpl; lia|].
  apply (proj1 (names_are_resolved_addresses_are_not
                  Sample.abiFromBytecode Disabled Disabled Sample.fragmentJson
                  "wallet.eth" cfg)).
  - left. simpl. lia.
  - reflexivity.
  - discriminate.
Defined.

(** C8 as the specification words it does not hold: a name of 42 characters
    that starts with 0x is not in the hex address format, yet it is taken
    for an address; nothing is announced or resolved and the name itself is
    sent to [getCode]. *)
Lemma long_0x_name_is_not_resolved :
  let name := "0xabcdefghijklmnopqrstuvwxyz0123456789.eth" in
  let cfg := Sample.config Disabled Disabled None None in
  hexAddressFormat name = false
  ∧ Sample.run name cfg
    = ([Progress "getCode" {[ "address" := VStr name ]}; GetCode name], Ok [])
  ∧ (Progress "resolveName" {[ "address" := VStr name ]} ∉ (Sample.run name cfg).1)
  ∧ (ResolveName name ∉ (Sample.run name cfg).1).
Proof.
  intros name cfg.
  assert (Sample.run name cfg
    = ([Progress "getCode" {[ "address" := VStr name ]}; GetCode name], Ok []))
    as H by (vm_compute; reflexivity).
  split; [by vm_compute|]. split; [done|]. rewrite H. simpl.
  split; intros Hin; which_call Hin.
Qed.

Lemma registry_answer_short_circuits_witness :
  Sample.run Sample.contract
    (Sample.config (Enabled Sample.registryHit) (Enabled Sample.database) None None)
  = ([Progress "abiLoader" {[ "address" := VStr Sample.contract ]};
      LoadABI Sample.contract],
     Ok Sample.verified).
Proof.
  apply (registry_answer_short_circuits
           Sample.abiFromBytecode Disabled Disabled Sample.fragmentJson
           Sample.contract Sample.contract
           (Sample.config (Enabled Sample.registryHit) (Enabled Sample.database) None None)
           [] Sample.registryHit Sample.verified);
    try reflexivity.
  discriminate.
Defined.

Lemma registry_failure_aborts_on_true_only_witness :
  Sample.run Sample.contract
    (Sample.config (Enabled Sample.registryDown) (Enabled Sample.database)
       (Some (λ _ _, VBool true)) None)
  = ([Progress "abiLoader" {[ "address" := VStr Sample.contract ]};
      LoadABI Sample.contract;
      OnError "abiLoad" (MkError "registry unreachable")],
     Ok []).
Proof.
  apply (proj1 (registry_failure_aborts_on_true_only
                  Sample.abiFromBytecode Disabled Disabled Sample.fragmentJson
                  Sample.contract Sample.contract
                  (Sample.config (Enabled Sample.registryDown) (Enabled Sample.database)
                     (Some (λ _ _, VBool true)) None)
                  [] Sample.registryDown (MkError "registry unreachable")
                  eq_refl eq_refl eq_refl)
           (λ _ _, VBool true)).
  - reflexivity.
  - reflexivity.
Defined.

(** C2. The claim, like the comment at line 25, has every truthy answer of
    the error hook abort the run.  Line 57 compares the answer with [true],
    so a hook that answers 1 (truthy) on a failed registry lookup does not
    abort: the run goes on to fetch the code and returns the filtered
    candidates instead of the empty ABI. *)
Theorem truthy_hook_answer_does_not_abort :
  let cfg :=
    Sample.config (Enabled Sample.registryDown) Disabled (Some (λ _ _, VNum 1)) None in
  truthy (VNum 1) = true
  ∧ Sample.run Sample.contract cfg
    = ([Progress "abiLoader" {[ "address" := VStr Sample.contract ]};
        LoadABI Sample.contract;
        OnError "abiLoad" (MkError "registry unreachable");
        Progress "getCode" {[ "address" := VStr Sample.contract ]};
        GetCode Sample.contract],
       Ok [ {[ "type" := VStr "function"; "selector" := VStr "0x6dbf2fa0" ]};
            {[ "type" := VStr "function"; "selector" := VStr "0xec0ab6a7" ]} ])
  ∧ (Sample.run Sample.contract cfg).2 ≠ Ok [].
Proof.
  intros cfg. split; [reflexivity|].
  assert (Sample.run Sample.contract cfg
    = ([Progress "abiLoader" {[ "address" := VStr Sample.contract ]};
        LoadABI Sample.contract;
        OnError "abiLoad" (MkError "registry unreachable");
        Progress "getCode" {[ "address" := VStr Sample.contract ]};
        GetCode Sample.contract],
       Ok [ {[ "type" := VStr "function"; "selector" := VStr "0x6dbf2fa0" ]};
            {[ "type" := VStr "function"; "selector" := VStr "0xec0ab6a7" ]} ]))
    as H by (vm_compute; reflexivity).
  split; [done|]. rewrite H. simpl. discriminate.
Qed.

Lemma disabled_lookup_returns_candidates_witness :
  let cfg := Sample.config Disabled Disabled None None in
  Sample.run Sample.contract cfg
  = ([Progress "getCode" {[ "address" := VStr Sample.contract ]};
      GetCode Sample.contract],
     Ok (candidates Sample.abiFromBytecode cfg Sample.bytecode)).
Proof.
  intros cfg.
  apply (disabled_lookup_returns_candidates
           Sample.abiFromBytecode Disabled Disabled Sample.fragmentJson
           Sample.contract Sample.contract Sample.bytecode cfg [] []);
    reflexivity.
Defined.



(** C3 as the specification words it does not hold: with the signature
    lookup disabled and experimental metadata on, what comes back is the
    extractor's output, guesses and event included, not the filtered set. *)
Lemma experimental_candidates_come_back_unfiltered :
  let cfg := Sample.config Disabled Disabled None (Some true) in
  (Sample.run Sample.contract cfg).2 = Ok (Sample.abiFromBytecode Sample.bytecode)
  ∧ (Sample.run Sample.contract cfg).2
    ≠ Ok (stripUnreliableABI (Sample.abiFromBytecode Sample.bytecode)).
Proof.
  intros cfg.
  assert ((Sample.run Sample.contract cfg).2 = Ok (Sample.abiFromBytecode Sample.bytecode))
    as H by (vm_compute; reflexivity).
  split; [done|]. rewrite H. intros Heq. vm_compute in Heq. discriminate.
Qed.


(** * Further properties of the code *)

(** ** isAddress and the filter *)

(** [isAddress] accepts exactly the strings made of "0x" and forty more
    characters, whatever those characters are: hex digits are not checked. *)
Theorem isAddress_shape (s : string) :
  isAddress s = true ↔ ∃ rest, s = "0x" ++ rest ∧ String.length rest = 40.
Proof.
  unfold isAddress, startsWith.
  rewrite andb_true_iff, Nat.eqb_eq, String.prefix_correct. split.
  - intros [Hlen Hpre].
    destruct s as [|c1 [|c2 rest]]; try discriminate.
    exists rest. split; [|simpl in Hlen; lia].
    cbn in Hpre. destruct rest; by injection Hpre as -> ->.
  - intros (rest & -> & Hlen).
    cbv [String.append]. split.
    + simpl. by rewrite Hlen.
    + cbn. by destruct rest.
Qed.

Lemma isAddress_shape_witness :
  isAddress "0xgggggggggggggggggggggggggggggggggggggggg" = true.
Proof.
  apply isAddress_shape.
  exists "gggggggggggggggggggggggggggggggggggggggg". split; reflexivity.
Defined.

(** Filtering an ABI put together from two parts is filtering each part:
    what the filter does to an entry does not depend on its neighbours. *)
Theorem stripUnreliableABI_app (abi1 abi2 : ABI) :
  stripUnreliableABI (abi1 ++ abi2)%list
  = (stripUnreliableABI abi1 ++ stripUnreliableABI abi2)%list.
Proof.
  induction abi1 as [|a abi1 IH]; [done|].
  simpl. destruct (is_str (get a "type") "function"); [|done].
  simpl. by rewrite IH.
Qed.

(** The filter reads nothing of an entry but its [type] and its [selector]:
    two ABIs that agree on these two properties, entry by entry, are
    filtered to the same ABI, whatever else the extractor guessed. *)
Theorem stripUnreliableABI_reads_type_and_selector (abi1 abi2 : ABI) :
  Forall2 (λ a b : Obj,
      get a "type" = get b "type" ∧ get a "selector" = get b "selector")
    abi1 abi2 →
  stripUnreliableABI abi1 = stripUnreliableABI abi2.
Proof.
  induction 1 as [|a b abi1 abi2 [Hty Hsel] _ IH]; [done|].
  simpl. rewrite <- Hty.
  destruct (is_str (get a "type") "function"); [|done].
  unfold strippedEntry. by rewrite Hsel, IH.
Qed.

Lemma stripUnreliableABI_reads_type_and_selector_witness :
  stripUnreliableABI [Sample.guessed "0x6dbf2fa0"]
  = stripUnreliableABI [strippedEntry (Sample.guessed "0x6dbf2fa0")].
Proof.
  apply stripUnreliableABI_reads_type_and_selector.
  repeat constructor.
Defined.

(** ** Enrichment, entry by entry *)

Lemma setSigAlts_dom r (a : Obj) : dom a ⊆ dom (setSigAlts r a).
Proof.
  unfold setSigAlts. destruct (Nat.ltb 1 (List.length r)); [|done].
  rewrite dom_insert_L. set_solver.
Qed.

Lemma promiseAll_all_fulfilled tasks :
  Forall (λ t, rejection t = None) tasks → promiseAll tasks = Ok (settled <$> tasks).
Proof.
  intros H. unfold promiseAll.
  assert (omap rejection tasks = []) as ->; [|done].
  induction H as [|t tasks Ht _ IH]; [done|].
  simpl. by rewrite Ht.
Qed.

Section Entries.

Variable fragmentJson : string → Result Obj.
Variable lookup : SignatureLookup.

Lemma task_issued (a : Obj) :
  issued (task fragmentJson lookup a) = option_list (query a).
Proof.
  unfold task, query.
  destruct (is_str (get a "type") "function").
  - by destruct (match loadFunctions lookup _ with Ok r => _ | Err e => _ end).
  - destruct (is_str (get a "type") "event"); [|done].
    by destruct (match loadEvents lookup _ with Ok r => _ | Err e => _ end).
Qed.

(** The loop issues one query for each function entry and each event entry,
    in the order of the ABI, and none for any other entry; which queries are
    issued does not depend on what the database answers to them. *)
Theorem queries_follow_the_abi (abi : ABI) :
  concat (issued <$> (task fragmentJson lookup <$> abi)) = omap query abi.
Proof.
  induction abi as [|a abi IH]; [done|].
  rewrite !fmap_cons. cbn [concat]. rewrite IH, task_issued.
  simpl. by destruct (query a).
Qed.

Lemma functionsLoaded_dom (a : Obj) r :
  dom a ⊆ dom (functionsLoaded fragmentJson a r).1.
Proof.
  unfold functionsLoaded. destruct r as [|sig rest]; [done|].
  assert (dom a ⊆ dom (<["sig" := VStr sig]> a)) as Hsig
    by (rewrite dom_insert_L; set_solver).
  destruct (fragmentJson ("function " ++ sig)) as [extracted|thrown]; [|done].
  destruct (length_is_zero (get extracted "outputs")) as [empty|thrown]; [|done].
  simpl. etrans; [|apply setSigAlts_dom]. rewrite dom_union_L. set_solver.
Qed.

Lemma eventsLoaded_dom (a : Obj) r :
  dom a ⊆ dom (eventsLoaded fragmentJson a r).1.
Proof.
  unfold eventsLoaded. destruct r as [|sig rest]; [done|].
  assert (dom a ⊆ dom (<["sig" := VStr sig]> a)) as Hsig
    by (rewrite dom_insert_L; set_solver).
  destruct (fragmentJson ("event " ++ sig)) as [extracted|thrown]; [|done].
  simpl. etrans; [|apply setSigAlts_dom]. rewrite dom_union_L. set_solver.
Qed.

(** Enrichment only adds to an entry: whatever the database answers and
    whether or not the callback throws, every property the entry had is
    still there afterwards; and the ABI handed back has as many entries as
    the one that went in. *)
Theorem enrichment_only_adds (a : Obj) :
  dom a ⊆ dom (settled (task fragmentJson lookup a))
  ∧ ∀ (abi abi' : ABI),
      promiseAll (task fragmentJson lookup <$> abi) = Ok abi' →
      List.length abi' = List.length abi.
Proof.
  split.
  - unfold task.
    destruct (is_str (get a "type") "function").
    + destruct (loadFunctions lookup (get a "selector")) as [r|e]; [|done].
      pose proof (functionsLoaded_dom a r) as H.
      by destruct (functionsLoaded fragmentJson a r).
    + destruct (is_str (get a "type") "event"); [|done].
      destruct (loadEvents lookup (get a "hash")) as [r|e]; [|done].
      pose proof (eventsLoaded_dom a r) as H.
      by destruct (eventsLoaded fragmentJson a r).
  - intros abi abi' Hall.
    apply promiseAll_fulfilled in Hall as ->.
    by rewrite !length_fmap.
Qed.

Lemma task_unanswered (a : Obj) :
  answer lookup a = None ∨ answer lookup a = Some (Ok []) →
  settled (task fragmentJson lookup a) = a
  ∧ rejection (task fragmentJson lookup a) = None.
Proof.
  unfold answer, task.
  destruct (is_str (get a "type") "function").
  - intros [[=]|[= ->]]. done.
  - destruct (is_str (get a "type") "event"); [|done].
    intros [[=]|[= ->]]. done.
Qed.

(** When the database knows none of the entries (every query it is asked
    comes back empty), enrichment hands the ABI back exactly as it was. *)
Theorem unknown_entries_come_back_unchanged (abi : ABI) :
  Forall (λ a, answer lookup a = None ∨ answer lookup a = Some (Ok [])) abi →
  promiseAll (task fragmentJson lookup <$> abi) = Ok abi.
Proof.
  intros H.
  rewrite promiseAll_all_fulfilled.
  - f_equal. induction H as [|a abi Ha _ IH]; [done|].
    rewrite !fmap_cons, IH. by destruct (task_unanswered a Ha) as [-> _].
  - apply Forall_fmap. eapply Forall_impl; [exact H|].
    intros a Ha. simpl. by destruct (task_unanswered a Ha).
Qed.

(** A first hit the fragment parser throws on is fatal to the whole batch:
    the entry has got its [sig] and nothing else, its task rejects with the
    parser's error, and [Promise.all] rejects. *)
Theorem unparseable_hit_rejects_batch (abi : ABI) (i : nat) (a : Obj)
    (sig : string) (rest : list string) (thrown : Error) :
  abi !! i = Some a →
  is_str (get a "type") "function" = true →
  loadFunctions lookup (get a "selector") = Ok (sig :: rest) →
  fragmentJson ("function " ++ sig) = Err thrown →
  settled (task fragmentJson lookup a) = <["sig" := VStr sig]> a
  ∧ rejection (task fragmentJson lookup a) = Some thrown
  ∧ ∃ e, promiseAll (task fragmentJson lookup <$> abi) = Err e.
Proof.
  intros Hi Hty Hq Hparse.
  assert (task fragmentJson lookup a
          = {| issued := [LoadFunctions (get a "selector")];
               settled := <["sig" := VStr sig]> a;
               rejection := Some thrown |}) as Ht.
  { rewrite task_function by done. rewrite Hq.
    by rewrite (function_hit_not_parsed _ _ _ _ _ Hparse). }
  rewrite Ht. simpl. repeat split.
  destruct (promiseAll_rejected (task fragmentJson lookup <$> abi)
              (task fragmentJson lookup a) thrown) as (e & He & _).
  - apply list_elem_of_fmap_2. by eapply list_elem_of_lookup_2.
  - by rewrite Ht.
  - eauto.
Qed.

(** The callback for an event entry: when the first hit parses, it does not
    throw, the entry gets [sig], gets the remaining hits as [sigAlts] when
    there are any, and takes over every parsed field, [outputs] included
    (the exception made for function entries is not made here); every
    other property stays. *)
Theorem event_hits_enrich_entry (a extracted : Obj) (sig : string)
    (rest : list string) :
  fragmentJson ("event " ++ sig) = Ok extracted →
  let a' := (eventsLoaded fragmentJson a (sig :: rest)).1 in
  (eventsLoaded fragmentJson a (sig :: rest)).2 = None
  ∧ (extracted !! "sig" = None → a' !! "sig" = Some (VStr sig))
  ∧ (rest ≠ [] → a' !! "sigAlts" = Some (VArr (VStr <$> rest)))
  ∧ (∀ k v, k ≠ "sigAlts" → extracted !! k = Some v → a' !! k = Some v)
  ∧ (∀ k, k ≠ "sig" → k ≠ "sigAlts" → extracted !! k = None → a' !! k = a !! k).
Proof.
  intros Hparse a'. subst a'.
  unfold eventsLoaded. rewrite Hparse. simpl.
  split; [done|]. split; [|split; [|split]].
  - intros Hsig. rewrite setSigAlts_other by done.
    rewrite assign_lookup, Hsig. by rewrite lookup_insert_eq.
  - intros Hrest. destruct rest as [|alt rest']; [done|].
    apply setSigAlts_several.
  - intros k v Hk Hv. rewrite setSigAlts_other by done.
    by rewrite assign_lookup, Hv.
  - intros k Hk1 Hk2 Hk. rewrite setSigAlts_other by done.
    rewrite assign_lookup, Hk. by rewrite lookup_insert_ne.
Qed.

End Entries.

Lemma enrichment_only_adds_witness :
  List.length
    (settled <$> (task Sample.fragmentJson Sample.database
                    <$> [strippedEntry (Sample.guessed "0xec0ab6a7")]))
  = 1.
Proof.
  apply (proj2 (enrichment_only_adds Sample.fragmentJson Sample.database ∅)
           [strippedEntry (Sample.guessed "0xec0ab6a7")]).
  reflexivity.
Defined.

Lemma unknown_entries_come_back_unchanged_witness :
  let abi : ABI := [strippedEntry (Sample.guessed "0xec0ab6a7")] in
  promiseAll (task Sample.fragmentJson Sample.database <$> abi) = Ok abi.
Proof.
  intros abi.
  apply (unknown_entries_come_back_unchanged Sample.fragmentJson Sample.database abi).
  constructor; [right; reflexivity|constructor].
Defined.

Lemma unparseable_hit_rejects_batch_witness :
  let unparsed : SignatureLookup :=
    {| loadFunctions _ := Ok ["call"; "call(bytes)"]; loadEvents _ := Ok [] |} in
  let a : Obj := strippedEntry (Sample.guessed "0x6dbf2fa0") in
  rejection (task Sample.fragmentJson unparsed a) = Some (MkError "invalid fragment").
Proof.
  intros unparsed a.
  apply (unparseable_hit_rejects_batch Sample.fragmentJson unparsed [a] 0 a
           "call" ["call(bytes)"] (MkError "invalid fragment"));
    reflexivity.
Defined.

Lemma event_hits_enrich_entry_witness :
  (eventsLoaded Sample.fragmentJson Sample.topic
     ["Transfer(address,address,uint256)"]).2 = None.
Proof.
  apply (event_hits_enrich_entry Sample.fragmentJson Sample.topic
           Sample.transferFragment "Transfer(address,address,uint256)" []).
  reflexivity.
Defined.

(** ** Whole runs *)

Lemma bind_calls {A B} (m : Run A) (k : A → Run B) :
  (m ≫= k).1
  = (m.1 ++ match m.2 with
            | Ok a => (k a).1
            | Err _ => []
            end)%list.
Proof.
  destruct m as [t [a|e]].
  - rewrite bind_fulfilled. done.
  - simpl. by rewrite app_nil_r.
Qed.

Lemma quiet_weaken (kind kind' : Call → bool) t :
  (∀ c, kind' c = true → kind c = true) → quiet kind t → quiet kind' t.
Proof.
  intros Hk Hq. unfold quiet in *. eapply Forall_impl; [exact Hq|].
  intros c Hc. simpl in Hc.
  destruct (kind' c) eqn:E; [|done]. apply Hk in E. congruence.
Qed.

Lemma phases_app t t' : phases (t ++ t')%list = (phases t ++ phases t')%list.
Proof. apply omap_app. Qed.

Lemma stripUnreliableABI_functions abi :
  Forall (λ a, is_str (get a "type") "function" = true) (stripUnreliableABI abi).
Proof.
  rewrite strip_as_filter. apply Forall_fmap, Forall_forall.
  intros a _. simpl. unfold get. by rewrite strippedEntry_type.
Qed.

Section Runs.

Variable abiFromBytecode : string → ABI.
Variable defaultABILoader : Capability ABILoader.
Variable defaultSignatureLookup : Capability SignatureLookup.
Variable fragmentJson : string → Result Obj.

#[local] Abbreviation resolve :=
  (autoload abiFromBytecode defaultABILoader defaultSignatureLookup fragmentJson).
#[local] Abbreviation pipeline :=
  (fromAddress abiFromBytecode defaultABILoader defaultSignatureLookup fragmentJson).
#[local] Abbreviation bytecodeStage :=
  (fromCode abiFromBytecode defaultSignatureLookup fragmentJson).
#[local] Abbreviation registryStage := (registry defaultABILoader).
#[local] Abbreviation enrichment := (enrich defaultSignatureLookup fragmentJson).
#[local] Abbreviation candidateSet := (candidates abiFromBytecode).

Lemma normalize_cases cfg input :
  normalize cfg input
  = if isAddress input then ([], Ok input)
    else
      after [Progress "resolveName" {[ "address" := VStr input ]}; ResolveName input]
        (match resolveName (provider cfg) input with
         | Ok r => ([], Ok (match r with
                            | Some resolved =>
                                if String.eqb resolved "" then input else resolved
                            | None => input
                            end))
         | Err e => ([], Err e)
         end).
Proof.
  destruct (isAddress input) eqn:H.
  - by apply normalize_address.
  - by apply normalize_name.
Qed.

Lemma registry_cases cfg address :
  registryStage cfg address
  = match configured (abiLoader cfg) defaultABILoader with
    | None => ([], Ok None)
    | Some loader =>
        after [Progress "abiLoader" {[ "address" := VStr address ]}; LoadABI address]
          (match loadABI loader address with
           | Ok abi => ([], Ok (if Nat.ltb 0 (List.length abi) then Some abi else None))
           | Err e =>
               after [OnError "abiLoad" e]
                 (match onError cfg with
                  | Some hook =>
                      ([], Ok (if is_true (hook "abiLoad" e)
                               then Some [] else None))
                  | None => ([ConsoleError "abiLoad:" e], Ok None)
                  end)
           end)
    end.
Proof.
  destruct (configured (abiLoader cfg) defaultABILoader) as [loader|] eqn:Hc.
  - destruct (loadABI loader address) as [abi|e] eqn:Hl.
    + by rewrite (registry_answered _ _ _ _ _ Hc Hl).
    + rewrite (registry_failed _ _ _ _ _ Hc Hl). by rewrite after_after.
  - by apply registry_disabled.
Qed.

Lemma enrich_cases cfg abi :
  enrichment cfg abi
  = match configured (signatureLookup cfg) defaultSignatureLookup with
    | None => ([], Ok abi)
    | Some lookup =>
        (Progress "signatureLookup" {[ "abiItems" := VNum (Z.of_nat (List.length abi)) ]}
           :: concat (issued <$> (task fragmentJson lookup <$> abi)),
         promiseAll (task fragmentJson lookup <$> abi))
    end.
Proof.
  destruct (configured (signatureLookup cfg) defaultSignatureLookup) eqn:Hc.
  - by apply enrich_enabled.
  - by apply enrich_disabled.
Qed.

Lemma fromCode_cases cfg address :
  bytecodeStage cfg address
  = after [Progress "getCode" {[ "address" := VStr address ]}; GetCode address]
      (match getCode (provider cfg) address with
       | Ok code => enrichment cfg (candidateSet cfg code)
       | Err e => ([], Err e)
       end).
Proof.
  destruct (getCode (provider cfg) address) as [code|e] eqn:H.
  - by apply fromCode_fetched.
  - unfold fromCode, emit, await. rewrite H. by rewrite bind_fulfilled.
Qed.

Lemma fromAddress_cases cfg address :
  ∃ t1 early, registryStage cfg address = (t1, Ok early)
    ∧ pipeline cfg address
      = after t1 (match early with
                  | Some abi => ([], Ok abi)
                  | None => bytecodeStage cfg address
                  end).
Proof.
  destruct (registry_shape defaultABILoader cfg address) as (t1 & early & Hr & _).
  exists t1, early. split; [done|]. by apply fromAddress_staged.
Qed.

Lemma resolve_calls cfg input :
  (resolve input cfg).1
  = ((normalize cfg input).1
     ++ match (normalize cfg input).2 with
        | Ok address =>
            (registryStage cfg address).1
            ++ match (registryStage cfg address).2 with
               | Ok None => (bytecodeStage cfg address).1
               | _ => []
               end
        | Err _ => []
        end)%list.
Proof.
  unfold autoload. rewrite bind_calls. f_equal.
  destruct (normalize cfg input).2 as [address|e]; [|done].
  unfold fromAddress. rewrite bind_calls. f_equal.
  destruct (registryStage cfg address).2 as [[abi|]|e]; done.
Qed.

Lemma resolve_quiet kind cfg input :
  quiet kind (normalize cfg input).1 →
  (∀ address, quiet kind (registryStage cfg address).1) →
  (∀ address, quiet kind (bytecodeStage cfg address).1) →
  quiet kind (resolve input cfg).1.
Proof.
  intros Hn Hr Hb. rewrite resolve_calls. apply quiet_app; [done|].
  destruct (normalize cfg input).2 as [address|e]; [|constructor].
  apply quiet_app; [done|].
  destruct (registryStage cfg address).2 as [[abi|]|e]; [constructor|done|constructor].
Qed.

Lemma registry_quiet cfg address :
  quiet signatureQuery (registryStage cfg address).1.
Proof.
  destruct (registry_shape defaultABILoader cfg address)
    as (t1 & early & Hr & _ & _ & Hq).
  by rewrite Hr.
Qed.

Lemma bytecodeStage_calls cfg address :
  Forall (λ c, bytecodeCall c = true) (bytecodeStage cfg address).1.
Proof.
  rewrite fromCode_cases. unfold after. simpl.
  constructor; [done|]. constructor; [done|].
  destruct (getCode (provider cfg) address) as [code|e]; [|constructor].
  rewrite enrich_cases.
  destruct (configured (signatureLookup cfg) defaultSignatureLookup) as [lookup|];
    [|constructor].
  simpl. constructor; [done|].
  apply Forall_concat, Forall_fmap, Forall_fmap, Forall_forall.
  intros a _. simpl. rewrite task_issued.
  unfold query.
  destruct (is_str (get a "type") "function"); [by repeat constructor|].
  destruct (is_str (get a "type") "event"); by repeat constructor.
Qed.

(** Unless [enableExperimentalMetadata] is true, [loadEvents] is never
    called, whatever the bytecode holds and whatever lookup is configured:
    the filter has dropped every event entry before enrichment starts. *)
Theorem events_are_not_looked_up_by_default (input : string) (cfg : AutoloadConfig) :
  enableExperimentalMetadata cfg ≠ Some true →
  quiet eventQuery (resolve input cfg).1.
Proof.
  intros Hflag.
  assert (∀ c, eventQuery c = true → signatureQuery c = true) as Hweak
    by (by intros []).
  apply resolve_quiet.
  - eapply quiet_weaken; [exact Hweak|]. apply normalize_quiet.
  - intros address. eapply quiet_weaken; [exact Hweak|]. apply registry_quiet.
  - intros address. rewrite fromCode_cases. unfold after. simpl.
    constructor; [done|]. constructor; [done|].
    destruct (getCode (provider cfg) address) as [code|e]; [|constructor].
    rewrite enrich_cases.
    destruct (configured (signatureLookup cfg) defaultSignatureLookup) as [lookup|];
      [|constructor].
    simpl. constructor; [done|].
    assert (candidateSet cfg code = stripUnreliableABI (abiFromBytecode code)) as ->.
    { unfold candidates. by destruct (enableExperimentalMetadata cfg) as [[]|]. }
    apply Forall_concat, Forall_fmap, Forall_fmap.
    eapply Forall_impl; [apply stripUnreliableABI_functions|].
    intros a Ha. simpl. rewrite task_issued. unfold query. rewrite Ha.
    by repeat constructor.
Qed.

(** A rejection of the provider is not caught: when [resolveName] rejects,
    [autoload] raises that error right after the call; when [getCode]
    rejects, it raises that error without having queried any signature. *)
Theorem provider_rejections_are_raised (input : string) (cfg : AutoloadConfig)
    (e : Error) :
  (isAddress input = false →
   resolveName (provider cfg) input = Err e →
   resolve input cfg
   = ([Progress "resolveName" {[ "address" := VStr input ]}; ResolveName input], Err e))
  ∧ (∀ address t0 t1,
       normalize cfg input = (t0, Ok address) →
       registryStage cfg address = (t1, Ok None) →
       getCode (provider cfg) address = Err e →
       resolve input cfg
       = ((t0 ++ t1 ++ [Progress "getCode" {[ "address" := VStr address ]};
                        GetCode address])%list,
          Err e)).
Proof.
  split.
  - intros Hname Hr.
    unfold autoload. rewrite (normalize_name cfg input Hname), Hr. done.
  - intros address t0 t1 Hn Hreg Hcode.
    rewrite (autoload_normalized _ _ _ _ _ _ _ _ Hn).
    rewrite (fromAddress_staged _ _ _ _ _ _ _ _ Hreg).
    rewrite fromCode_cases, Hcode. unfold after. simpl. by rewrite ?app_nil_r.
Qed.

(** The error hook is called for one thing only: a call [OnError phase e]
    in a run means that [phase] is "abiLoad" and that the registry lookup
    in effect rejected with [e]. *)
Theorem error_hook_only_for_registry (input : string) (cfg : AutoloadConfig)
    (phase : string) (e : Error) :
  OnError phase e ∈ (resolve input cfg).1 →
  phase = "abiLoad"
  ∧ ∃ loader address,
      configured (abiLoader cfg) defaultABILoader = Some loader
      ∧ loadABI loader address = Err e.
Proof.
  rewrite resolve_calls. rewrite elem_of_app. intros [Hin|Hin].
  - exfalso. rewrite normalize_cases in Hin.
    destruct (isAddress input); [by apply elem_of_nil in Hin|].
    destruct (resolveName (provider cfg) input); which_call Hin.
  - destruct (normalize cfg input).2 as [address|e0]; [|by apply elem_of_nil in Hin].
    rewrite elem_of_app in Hin. destruct Hin as [Hin|Hin].
    + rewrite registry_cases in Hin.
      destruct (configured (abiLoader cfg) defaultABILoader) as [loader|] eqn:Hc;
        [|by apply elem_of_nil in Hin].
      destruct (loadABI loader address) as [abi|e1] eqn:Hl; simpl in Hin.
      * which_call Hin.
      * assert (OnError phase e = OnError "abiLoad" e1) as [= -> ->]
          by (destruct (onError cfg); which_call Hin).
        eauto.
    + exfalso.
      destruct (registryStage cfg address).2 as [[abi|]|e1];
        try (by apply elem_of_nil in Hin).
      pose proof (bytecodeStage_calls cfg address) as Hb.
      rewrite Forall_forall in Hb. apply Hb in Hin. done.
Qed.

Lemma normalize_phases cfg input :
  phases (normalize cfg input).1 = if isAddress input then [] else ["resolveName"].
Proof.
  rewrite normalize_cases. destruct (isAddress input); [done|].
  by destruct (resolveName (provider cfg) input).
Qed.

Lemma registry_phases cfg address :
  phases (registryStage cfg address).1
  = match configured (abiLoader cfg) defaultABILoader with
    | Some _ => ["abiLoader"]
    | None => []
    end.
Proof.
  rewrite registry_cases.
  destruct (configured (abiLoader cfg) defaultABILoader) as [loader|]; [|done].
  destruct (loadABI loader address); [done|].
  by destruct (onError cfg).
Qed.

Lemma issued_phases lookup abi :
  phases (concat (issued <$> (task fragmentJson lookup <$> abi))) = [].
Proof.
  induction abi as [|a abi IH]; [done|].
  rewrite !fmap_cons. cbn [concat]. rewrite phases_app, IH, task_issued.
  unfold query.
  destruct (is_str (get a "type") "function"); [done|].
  by destruct (is_str (get a "type") "event").
Qed.

Lemma bytecodeStage_phases cfg address :
  phases (bytecodeStage cfg address).1 = ["getCode"]
  ∨ phases (bytecodeStage cfg address).1 = ["getCode"; "signatureLookup"].
Proof.
  rewrite fromCode_cases.
  destruct (getCode (provider cfg) address) as [code|e]; [|by left].
  rewrite enrich_cases.
  destruct (configured (signatureLookup cfg) defaultSignatureLookup) as [lookup|];
    [|by left].
  right. unfold after. simpl. unfold phases at 1. simpl.
  fold (phases (concat (issued <$> (task fragmentJson lookup <$> candidateSet cfg code)))).
  by rewrite issued_phases.
Qed.

(** The progress hook hears the phases in pipeline order and each at most
    once: the phases of any run are a sublist of resolveName, abiLoader,
    getCode, signatureLookup. *)
Theorem phases_come_in_order (input : string) (cfg : AutoloadConfig) :
  phases (resolve input cfg).1
    `sublist_of` ["resolveName"; "abiLoader"; "getCode"; "signatureLookup"].
Proof.
  rewrite resolve_calls, phases_app, normalize_phases.
  assert (∀ address,
    phases ((registryStage cfg address).1
            ++ match (registryStage cfg address).2 with
               | Ok None => (bytecodeStage cfg address).1
               | _ => []
               end)%list
      `sublist_of` ["abiLoader"; "getCode"; "signatureLookup"]) as Hrest.
  { intros address. rewrite phases_app, registry_phases.
    assert (phases match (registryStage cfg address).2 with
                   | Ok None => (bytecodeStage cfg address).1
                   | _ => []
                   end `sublist_of` ["getCode"; "signatureLookup"]) as Hb.
    { destruct (registryStage cfg address).2 as [[abi|]|e];
        [repeat constructor| |repeat constructor].
      destruct (bytecodeStage_phases cfg address) as [-> | ->].
      - apply sublist_skip, sublist_cons, sublist_nil.
      - done. }
    destruct (configured (abiLoader cfg) defaultABILoader).
    - by apply sublist_skip.
    - by apply sublist_cons. }
  destruct (isAddress input).
  - simpl. apply sublist_cons.
    destruct (normalize cfg input).2 as [address|e]; [apply Hrest|].
    repeat constructor.
  - apply (sublist_skip "resolveName").
    destruct (normalize cfg input).2 as [address|e]; [apply Hrest|].
    repeat constructor.
Qed.

(** The default capabilities only stand in for options left unset: once
    [abiLoader] and [signatureLookup] are both given (an instance or
    false), the run is the same whatever the defaults are. *)
Theorem defaults_only_fill_unset_options (input : string) (cfg : AutoloadConfig)
    (otherLoader : Capability ABILoader) (otherLookup : Capability SignatureLookup) :
  abiLoader cfg ≠ Unset →
  signatureLookup cfg ≠ Unset →
  resolve input cfg
  = autoload abiFromBytecode otherLoader otherLookup fragmentJson input cfg.
Proof.
  intros Hloader Hlookup.
  assert (configured (abiLoader cfg) defaultABILoader
          = configured (abiLoader cfg) otherLoader) as Hl
    by (by destruct (abiLoader cfg)).
  assert (configured (signatureLookup cfg) defaultSignatureLookup
          = configured (signatureLookup cfg) otherLookup) as Hs
    by (by destruct (signatureLookup cfg)).
  unfold autoload, fromAddress, registry, fromCode, enrich.
  by rewrite Hl, Hs.
Qed.

End Runs.

Lemma events_are_not_looked_up_by_default_witness :
  quiet eventQuery
    (Sample.run Sample.contract
       (Sample.config Disabled (Enabled Sample.database) None None)).1.
Proof.
  apply (events_are_not_looked_up_by_default
           Sample.abiFromBytecode Disabled Disabled Sample.fragmentJson).
  simpl. discriminate.
Defined.

Lemma provider_rejections_are_raised_witness :
  let offline : Provider :=
    {| resolveName _ := Err (MkError "network down");
       getCode _ := Err (MkError "network down") |} in
  let cfg :=
    {| provider := offline; abiLoader := Disabled; signatureLookup := Disabled;
       onError := None; enableExperimentalMetadata := None |} in
  autoload Sample.abiFromBytecode Disabled Disabled Sample.fragmentJson "wallet.eth" cfg
  = ([Progress "resolveName" {[ "address" := VStr "wallet.eth" ]};
      ResolveName "wallet.eth"],
     Err (MkError "network down")).
Proof.
  intros offline cfg.
  apply (proj1 (provider_rejections_are_raised
                  Sample.abiFromBytecode Disabled Disabled Sample.fragmentJson
                  "wallet.eth" cfg (MkError "network down")));
    reflexivity.
Defined.

Lemma error_hook_only_for_registry_witness :
  let cfg := Sample.config (Enabled Sample.registryDown) Disabled None None in
  ∃ loader address,
    configured (abiLoader cfg) Disabled = Some loader
    ∧ loadABI loader address = Err (MkError "registry unreachable").
Proof.
  intros cfg.
  apply (error_hook_only_for_registry
           Sample.abiFromBytecode Disabled Disabled Sample.fragmentJson
           Sample.contract cfg "abiLoad" (MkError "registry unreachable")).
  apply (list_elem_of_lookup_2 _ 2). reflexivity.
Defined.

Lemma defaults_only_fill_unset_options_witness :
  let cfg := Sample.config Disabled (Enabled Sample.database) None None in
  Sample.run Sample.contract cfg
  = autoload Sample.abiFromBytecode (Enabled Sample.registryHit) (Enabled Sample.flaky)
      Sample.fragmentJson Sample.contract cfg.
Proof.
  intros cfg.
  apply (defaults_only_fill_unset_options
           Sample.abiFromBytecode Disabled Disabled Sample.fragmentJson
           Sample.contract cfg (Enabled Sample.registryHit) (Enabled Sample.flaky));
    simpl; discriminate.
Defined.
